(** * gdsfactory notebooks: cells, layers, database models and the ring filter

    A shallow embedding of the code shown in the documentation notebooks
    (docs/notebooks): the all-pass ring response of workflow/2_ring.ipynb,
    the generic layer map and layer stack of 03_layer_stack.ipynb, and the
    behaviour the notebooks describe for the cache of [gf.cell] and for the
    database models. *)

From Stdlib Require Import PrimFloat Reals Lra ZArith QArith_base Qring String List.
From Stdlib Require Import HexadecimalString HexadecimalNat.
From stdpp Require Import gmap strings.

(** ** The all-pass ring filter (workflow/2_ring.ipynb, [ring]) *)

Module Ring.
Local Open Scope R_scope.

(** numpy's complex128, in exact arithmetic: a pair of reals. *)
Record C := mkC { re : R; im : R }.

Definition RtoC (x : R) : C := mkC x 0.

Definition Cminus (a b : C) : C := mkC (re a - re b) (im a - im b).

Definition Cmult (a b : C) : C :=
  mkC (re a * re b - im a * im b) (re a * im b + im a * re b).

(** [np.exp] on a complex argument. *)
Definition Cexp (z : C) : C :=
  mkC (exp (re z) * cos (im z)) (exp (re z) * sin (im z)).

(** [abs] on a complex argument. *)
Definition Cabs (z : C) : R := sqrt (re z * re z + im z * im z).

(** Division has no value when the divisor is zero (numpy gives nan or inf
    there), so the quotient is optional. *)
Definition Cdiv (a b : C) : option C :=
  let d := re b * re b + im b * im b in
  if Req_dec_T d 0 then None
  else Some (mkC ((re a * re b + im a * im b) / d)
                 ((im a * re b - re a * im b) / d)).

Definition Rdiv_opt (x y : R) : option R :=
  if Req_dec_T y 0 then None else Some (x / y).

(** [np.sqrt] of a real: no value on a negative argument. *)
Definition sqrt_opt (x : R) : option R :=
  if Rlt_dec x 0 then None else Some (sqrt x).

(** [2j], the imaginary literal. *)
Definition two_j : C := mkC 0 2.

(** The function [ring], statement by statement. [wl] is one wavelength of
    the array: numpy applies every operation elementwise. *)
Definition ring (wl wl0 neff ng ring_length coupling loss : R) : option R :=
  let transmission := 1 - coupling in
  q ← Rdiv_opt ((wl0 - wl) * (ng - neff)) wl0;
  let neff_wl := neff + q in
  t ← sqrt_opt transmission;
  let a := Rpower 10 (- loss * ring_length / 20) in
  z ← Cdiv (Cmult (Cmult (Cmult two_j (RtoC PI)) (RtoC neff_wl))
                  (RtoC ring_length)) (RtoC wl);
  let out := Cminus (RtoC t) (Cmult (RtoC a) (Cexp z)) in
  out' ← Cdiv out (Cminus (RtoC 1) (Cmult (RtoC (t * a)) (Cexp z)));
  Some (Cabs out' ^ 2).

(** The response over an array of wavelengths. *)
Definition ring_array (wl : list R) (wl0 neff ng ring_length coupling loss : R)
  : list (option R) :=
  map (fun w => ring w wl0 neff ng ring_length coupling loss) wl.

(** The round-trip phase [2 pi neff_wl ring_length / wl]. *)
Definition phase (wl wl0 neff ng ring_length : R) : R :=
  2 * PI * (neff + (wl0 - wl) * (ng - neff) / wl0) * ring_length / wl.

Lemma Rdiv_opt_some x y : y <> 0 -> Rdiv_opt x y = Some (x / y).
Proof.
  intros Hy. unfold Rdiv_opt. destruct (Req_dec_T y 0); [contradiction | reflexivity].
Qed.

Lemma sqrt_opt_some x : 0 <= x -> sqrt_opt x = Some (sqrt x).
Proof.
  intros Hx. unfold sqrt_opt. destruct (Rlt_dec x 0); [lra | reflexivity].
Qed.

Lemma Cdiv_some a b :
  re b * re b + im b * im b <> 0 ->
  Cdiv a b =
  Some (mkC ((re a * re b + im a * im b) / (re b * re b + im b * im b))
            ((im a * re b - re a * im b) / (re b * re b + im b * im b))).
Proof.
  intros Hd. unfold Cdiv.
  destruct (Req_dec_T (re b * re b + im b * im b) 0); [contradiction | reflexivity].
Qed.

Lemma Cdiv_zero a b : re b = 0 -> im b = 0 -> Cdiv a b = None.
Proof.
  intros Hr Hi. unfold Cdiv. rewrite Hr, Hi.
  destruct (Req_dec_T (0 * 0 + 0 * 0) 0) as [_ | Hn]; [reflexivity | ].
  exfalso. apply Hn. ring.
Qed.

Lemma lossless_amplitude L : Rpower 10 (- 0 * L / 20) = 1.
Proof.
  replace (- 0 * L / 20) with 0 by field.
  apply Rpower_O. lra.
Qed.

Lemma Cabs_sqr z : Cabs z ^ 2 = re z * re z + im z * im z.
Proof.
  unfold Cabs. simpl. rewrite Rmult_1_r. apply sqrt_sqrt. nra.
Qed.

(** The exponent [2j * pi * neff_wl * ring_length / wl] is purely imaginary,
    with the round-trip phase as its imaginary part. *)
Lemma exponent_value n L wl :
  wl <> 0 ->
  Cdiv (Cmult (Cmult (Cmult two_j (RtoC PI)) (RtoC n)) (RtoC L)) (RtoC wl)
  = Some (mkC 0 (2 * PI * n * L / wl)).
Proof.
  intros Hwl. rewrite Cdiv_some; simpl.
  - f_equal. f_equal; field; exact Hwl.
  - nra.
Qed.

(** Squared modulus of [1 - t e^(i theta)]; it is also that of
    [t - e^(i theta)]. *)
Definition gap (t theta : R) : R := 1 - 2 * t * cos theta + t * t.

Lemma gap_pos t theta :
  0 <= t <= 1 -> (t = 1 -> cos theta <> 1) -> 0 < gap t theta.
Proof.
  intros [Ht0 Ht1] Hres. unfold gap.
  pose proof (COS_bound theta) as [Hc0 Hc1].
  destruct (Req_dec_T t 1) as [-> | Hne].
  - specialize (Hres eq_refl). lra.
  - assert (0 < (1 - t) * (1 - t)) by nra. nra.
Qed.

Lemma sqrt_transmission_bounds k :
  0 <= k <= 1 -> 0 <= sqrt (1 - k) <= 1 /\ (sqrt (1 - k) = 1 -> k = 0).
Proof.
  intros [Hk0 Hk1]. split.
  - split; [apply sqrt_pos | ].
    rewrite <- sqrt_1 at 2. apply sqrt_le_1_alt. lra.
  - intros Hs. assert (Hsq : sqrt (1 - k) * sqrt (1 - k) = 1 - k)
      by (apply sqrt_sqrt; lra).
    rewrite Hs in Hsq. lra.
Qed.

(** The modulus of a quotient is the quotient of the moduli. *)
Lemma Cdiv_modulus a b q :
  Cdiv a b = Some q ->
  Cabs q ^ 2 = (re a * re a + im a * im a) / (re b * re b + im b * im b).
Proof.
  unfold Cdiv. destruct (Req_dec_T (re b * re b + im b * im b) 0) as [ | Hd];
    [discriminate | ].
  intros [= <-]. rewrite Cabs_sqr. cbn [re im]. field. exact Hd.
Qed.

Lemma numerator_modulus t theta :
  let z := Cminus (RtoC t) (Cmult (RtoC 1) (Cexp (mkC 0 theta))) in
  re z * re z + im z * im z = gap t theta.
Proof.
  pose proof (sin2_cos2 theta) as Hsc. unfold Rsqr in Hsc.
  cbn [re im Cminus Cmult Cexp RtoC]. rewrite exp_0. unfold gap.
  ring_simplify. nra.
Qed.

Lemma divisor_modulus t theta :
  let z := Cminus (RtoC 1) (Cmult (RtoC (t * 1)) (Cexp (mkC 0 theta))) in
  re z * re z + im z * im z = gap t theta.
Proof.
  pose proof (sin2_cos2 theta) as Hsc. unfold Rsqr in Hsc.
  cbn [re im Cminus Cmult Cexp RtoC]. rewrite exp_0. unfold gap.
  assert (Hs : sin theta * sin theta = 1 - cos theta * cos theta) by lra.
  transitivity (1 - 2 * t * cos theta
                + t * t * (cos theta * cos theta + sin theta * sin theta)); [ring | ].
  rewrite Hs. ring.
Qed.

(** With no loss, the response is [(t - e) / (1 - t e)] for a unit complex
    number [e]; numerator and divisor have the same modulus. *)
Lemma all_pass_quotient t theta :
  0 < gap t theta ->
  (out ← Cdiv (Cminus (RtoC t) (Cmult (RtoC 1) (Cexp (mkC 0 theta))))
              (Cminus (RtoC 1) (Cmult (RtoC (t * 1)) (Cexp (mkC 0 theta))));
   Some (Cabs out ^ 2)) = Some 1.
Proof.
  intros Hg.
  pose proof (numerator_modulus t theta) as Hn.
  pose proof (divisor_modulus t theta) as Hd. cbv zeta in Hn, Hd.
  destruct (Cdiv _ _) as [q | ] eqn:Hq.
  - cbn [mbind option_bind]. f_equal.
    rewrite (Cdiv_modulus _ _ _ Hq), Hn, Hd. field. lra.
  - unfold Cdiv in Hq. rewrite Hd in Hq.
    destruct (Req_dec_T (gap t theta) 0); [lra | discriminate].
Qed.

(** C8, as amended. For wl > 0, wl0 > 0, ring_length >= 0 and
    0 <= coupling <= 1, the lossless ring (loss = 0) returns power
    transmission exactly 1 whenever the divisor of [out] is not zero, that is
    unless coupling = 0 and the round-trip phase is a multiple of 2 pi. *)
Theorem ring_lossless_all_pass wl wl0 neff ng ring_length coupling :
  0 < wl -> 0 < wl0 -> 0 <= ring_length -> 0 <= coupling <= 1 ->
  (coupling = 0 -> cos (phase wl wl0 neff ng ring_length) <> 1) ->
  ring wl wl0 neff ng ring_length coupling 0 = Some 1.
Proof.
  intros Hwl Hwl0 _ Hk Hres.
  destruct (sqrt_transmission_bounds coupling Hk) as [Ht Ht1].
  unfold ring.
  rewrite Rdiv_opt_some by lra. cbn [mbind option_bind].
  rewrite sqrt_opt_some by lra. cbn [mbind option_bind].
  rewrite exponent_value by lra. cbn [mbind option_bind].
  rewrite lossless_amplitude.
  apply all_pass_quotient.
  apply gap_pos; [exact Ht | ].
  intros Hs. unfold phase in Hres. apply Hres, Ht1, Hs.
Qed.

(** The lossless ring at coupling 1/2, wavelength 1, a ring of length 1. *)
Lemma ring_lossless_all_pass_witness : ring 1 1 2 4 1 (1 / 2) 0 = Some 1.
Proof.
  apply ring_lossless_all_pass; try lra.
Defined.

(** C8 as stated fails: with coupling = 0 and ring_length = 0 (loss = 0) the
    divisor [1 - sqrt(1) * 1 * exp(0)] is zero and [out] is 0/0: the call
    has no real value, so it does not return 1. *)
Lemma ring_lossless_uncoupled_undefined : ring 1 1 0 0 0 0 0 = None.
Proof.
  unfold ring.
  rewrite Rdiv_opt_some by lra. cbn [mbind option_bind].
  rewrite sqrt_opt_some by lra. cbn [mbind option_bind].
  rewrite exponent_value by lra. cbn [mbind option_bind].
  rewrite lossless_amplitude.
  replace (1 - 0) with 1 by ring. rewrite sqrt_1.
  replace (2 * PI * (0 + (1 - 1) * (0 - 0) / 1) * 0 / 1) with 0 by field.
  rewrite Cdiv_zero; [reflexivity | | ];
    cbn [re im Cminus Cmult Cexp RtoC]; rewrite exp_0, ?cos_0, ?sin_0; ring.
Qed.

(** *** The response for any loss *)

(** The round-trip amplitude [10 ** (-loss * ring_length / 20)]. *)
Definition amplitude (loss ring_length : R) : R :=
  Rpower 10 (- loss * ring_length / 20).

(** Squared moduli of [t - a e^(i theta)] and of [1 - t a e^(i theta)]. *)
Definition numer (t a theta : R) : R := t * t - 2 * t * a * cos theta + a * a.
Definition denom (t a theta : R) : R :=
  1 - 2 * t * a * cos theta + t * a * (t * a).

Lemma amplitude_pos loss L : 0 < amplitude loss L.
Proof. unfold amplitude, Rpower. apply exp_pos. Qed.

Lemma ln_10_pos : 0 < ln 10.
Proof. rewrite <- ln_1. apply ln_increasing; lra. Qed.

Lemma amplitude_le_1 loss L : 0 <= loss * L -> amplitude loss L <= 1.
Proof.
  intros H. unfold amplitude, Rpower. rewrite <- exp_0.
  pose proof ln_10_pos as Hl.
  assert (Hx : - loss * L / 20 * ln 10 <= 0) by nra.
  destruct Hx as [Hx | Hx].
  - left. apply exp_increasing, Hx.
  - right. rewrite Hx. reflexivity.
Qed.

Lemma amplitude_sqr loss L :
  amplitude loss L * amplitude loss L = Rpower 10 (- loss * L / 10).
Proof.
  unfold amplitude. rewrite <- Rpower_plus. f_equal. field.
Qed.

Lemma numerator_modulus_gen t a theta :
  let z := Cminus (RtoC t) (Cmult (RtoC a) (Cexp (mkC 0 theta))) in
  re z * re z + im z * im z = numer t a theta.
Proof.
  pose proof (sin2_cos2 theta) as Hsc. unfold Rsqr in Hsc.
  cbn [re im Cminus Cmult Cexp RtoC]. rewrite exp_0. unfold numer.
  assert (Hs : sin theta * sin theta = 1 - cos theta * cos theta) by lra.
  transitivity (t * t - 2 * t * a * cos theta
                + a * a * (cos theta * cos theta + sin theta * sin theta)); [ring | ].
  rewrite Hs. ring.
Qed.

Lemma divisor_modulus_gen t a theta :
  let z := Cminus (RtoC 1) (Cmult (RtoC (t * a)) (Cexp (mkC 0 theta))) in
  re z * re z + im z * im z = denom t a theta.
Proof.
  pose proof (sin2_cos2 theta) as Hsc. unfold Rsqr in Hsc.
  cbn [re im Cminus Cmult Cexp RtoC]. rewrite exp_0. unfold denom.
  assert (Hs : sin theta * sin theta = 1 - cos theta * cos theta) by lra.
  transitivity (1 - 2 * t * a * cos theta
                + t * a * (t * a) * (cos theta * cos theta + sin theta * sin theta));
    [ring | ].
  rewrite Hs. ring.
Qed.

Lemma denom_nonneg t a theta : 0 <= denom t a theta.
Proof. rewrite <- divisor_modulus_gen. cbv zeta. nra. Qed.

Lemma numer_nonneg t a theta : 0 <= numer t a theta.
Proof. rewrite <- numerator_modulus_gen. cbv zeta. nra. Qed.

(** The divisor vanishes only on resonance with [t a = 1]. *)
Lemma denom_zero_iff t a theta :
  0 <= t * a -> (denom t a theta = 0 <-> t * a = 1 /\ cos theta = 1).
Proof.
  intros Hta. unfold denom. pose proof (COS_bound theta) as [Hc0 Hc1].
  replace (2 * t * a * cos theta) with (2 * (t * a) * cos theta) by ring.
  generalize dependent (t * a). intros u Hu.
  generalize dependent (cos theta). intros c Hc0 Hc1.
  split.
  - intros H.
    assert (H2 : 0 <= (1 - u) * (1 - u)) by apply Rle_0_sqr.
    assert (H3 : 0 <= u * (1 - c)) by (apply Rmult_le_pos; lra).
    assert (H4 : (1 - u) * (1 - u) = 0) by lra.
    assert (H5 : u = 1) by (apply Rmult_integral in H4; lra).
    split; [exact H5 | ]. subst u. lra.
  - intros [-> ->]. ring.
Qed.

(** The steps of [ring] at which a value can be missing, in order, and the
    value otherwise. *)
Lemma ring_steps wl wl0 neff ng L k loss :
  ring wl wl0 neff ng L k loss =
  if Req_dec_T wl0 0 then None
  else if Rlt_dec (1 - k) 0 then None
  else if Req_dec_T wl 0 then None
  else
    let t := sqrt (1 - k) in
    let a := amplitude loss L in
    let theta := phase wl wl0 neff ng L in
    if Req_dec_T (denom t a theta) 0 then None
    else Some (numer t a theta / denom t a theta).
Proof.
  unfold ring, Rdiv_opt, sqrt_opt.
  destruct (Req_dec_T wl0 0) as [ | Hwl0]; [reflexivity | ].
  cbn [mbind option_bind].
  destruct (Rlt_dec (1 - k) 0) as [ | Hk]; [reflexivity | ].
  cbn [mbind option_bind].
  destruct (Req_dec_T wl 0) as [-> | Hwl].
  - rewrite Cdiv_zero; reflexivity.
  - rewrite exponent_value by exact Hwl. cbn [mbind option_bind]. cbv zeta.
    fold (amplitude loss L). fold (phase wl wl0 neff ng L).
    set (t := sqrt (1 - k)). set (a := amplitude loss L).
    set (theta := phase wl wl0 neff ng L).
    pose proof (numerator_modulus_gen t a theta) as Hn.
    pose proof (divisor_modulus_gen t a theta) as Hd. cbv zeta in Hn, Hd.
    destruct (Cdiv _ _) as [q | ] eqn:Hq.
    + cbn [mbind option_bind].
      rewrite (Cdiv_modulus _ _ _ Hq), Hn, Hd.
      unfold Cdiv in Hq. rewrite Hd in Hq.
      destruct (Req_dec_T (denom t a theta) 0); [discriminate | reflexivity].
    + unfold Cdiv in Hq. rewrite Hd in Hq.
      destruct (Req_dec_T (denom t a theta) 0); [reflexivity | discriminate].
Qed.

Lemma ring_lossless_all_pass_aux wl wl0 neff ng L k :
  0 < wl -> 0 < wl0 -> 0 < k <= 1 -> ring wl wl0 neff ng L k 0 = Some 1.
Proof.
  intros Hwl Hwl0 Hk.
  destruct (sqrt_transmission_bounds k) as [Ht Ht1]; [lra | ].
  unfold ring.
  rewrite Rdiv_opt_some by lra. cbn [mbind option_bind].
  rewrite sqrt_opt_some by lra. cbn [mbind option_bind].
  rewrite exponent_value by lra. cbn [mbind option_bind].
  rewrite lossless_amplitude.
  apply all_pass_quotient, gap_pos; [exact Ht | ].
  intros Hs. apply Ht1 in Hs. lra.
Qed.

Lemma sqrt_transmission_nonneg k : 0 <= sqrt (1 - k).
Proof. apply sqrt_pos. Qed.

Lemma phase_at_centre wl0 neff ng L :
  phase wl0 wl0 neff ng L = 2 * PI * neff * L / wl0.
Proof. unfold phase, Rdiv. ring. Qed.

Lemma amplitude_lt_1 loss L : 0 < loss * L -> amplitude loss L < 1.
Proof.
  intros H. unfold amplitude, Rpower. rewrite <- exp_0.
  pose proof ln_10_pos as Hl. apply exp_increasing. nra.
Qed.

(** The response in closed form: with t = sqrt(1 - coupling), a the
    round-trip amplitude and theta the round-trip phase, [ring] returns
    (t^2 - 2 t a cos theta + a^2) / (1 - 2 t a cos theta + t^2 a^2)
    wherever the divisor is not zero. *)
Theorem ring_closed_form wl wl0 neff ng L k loss :
  wl <> 0 -> wl0 <> 0 -> k <= 1 ->
  denom (sqrt (1 - k)) (amplitude loss L) (phase wl wl0 neff ng L) <> 0 ->
  ring wl wl0 neff ng L k loss
  = Some (numer (sqrt (1 - k)) (amplitude loss L) (phase wl wl0 neff ng L)
          / denom (sqrt (1 - k)) (amplitude loss L) (phase wl wl0 neff ng L)).
Proof.
  intros Hwl Hwl0 Hk Hd. rewrite ring_steps.
  destruct (Req_dec_T wl0 0); [contradiction | ].
  destruct (Rlt_dec (1 - k) 0); [lra | ].
  destruct (Req_dec_T wl 0); [contradiction | ]. cbv zeta.
  destruct (Req_dec_T _ 0); [contradiction | reflexivity].
Qed.

Lemma ring_closed_form_witness :
  ring 1 1 2 4 1 1 1
  = Some (numer (sqrt (1 - 1)) (amplitude 1 1) (phase 1 1 2 4 1)
          / denom (sqrt (1 - 1)) (amplitude 1 1) (phase 1 1 2 4 1)).
Proof.
  apply ring_closed_form; try lra.
  unfold denom. replace (1 - 1) with 0 by ring. rewrite sqrt_0. lra.
Defined.

(** [ring] has no value exactly when wl0 = 0, or coupling > 1, or wl = 0,
    or the ring is on resonance (the cosine of the round-trip phase is 1)
    with sqrt(1 - coupling) times the round-trip amplitude equal to 1. *)
Theorem ring_undefined_iff wl wl0 neff ng L k loss :
  ring wl wl0 neff ng L k loss = None <->
  wl0 = 0 \/ 1 < k \/ wl = 0
  \/ (sqrt (1 - k) * amplitude loss L = 1 /\ cos (phase wl wl0 neff ng L) = 1).
Proof.
  rewrite ring_steps.
  pose proof (denom_zero_iff (sqrt (1 - k)) (amplitude loss L)
                (phase wl wl0 neff ng L)) as Hz.
  assert (Hta : 0 <= sqrt (1 - k) * amplitude loss L).
  { apply Rmult_le_pos; [apply sqrt_pos | left; apply amplitude_pos]. }
  specialize (Hz Hta).
  destruct (Req_dec_T wl0 0) as [ | Hwl0]; [tauto | ].
  destruct (Rlt_dec (1 - k) 0) as [ | Hk]; [split; [right; left; lra | reflexivity] | ].
  destruct (Req_dec_T wl 0) as [ | Hwl]; [tauto | ]. cbv zeta.
  destruct (Req_dec_T _ 0) as [Hd | Hd].
  - split; [intros _ | reflexivity]. right. right. right. apply Hz, Hd.
  - split; [discriminate | ].
    intros [H | [H | [H | H]]]; [contradiction | lra | contradiction | ].
    exfalso. apply Hd, Hz, H.
Qed.

(** A ring with loss >= 0 is passive: whatever [ring] returns lies between
    0 and 1. *)
Theorem ring_passive wl wl0 neff ng L k loss T :
  0 <= loss -> 0 <= L -> 0 <= k <= 1 ->
  ring wl wl0 neff ng L k loss = Some T -> 0 <= T <= 1.
Proof.
  intros Hloss HL [Hk0 Hk1]. rewrite ring_steps.
  destruct (Req_dec_T wl0 0); [discriminate | ].
  destruct (Rlt_dec (1 - k) 0); [discriminate | ].
  destruct (Req_dec_T wl 0); [discriminate | ]. cbv zeta.
  set (t := sqrt (1 - k)). set (a := amplitude loss L).
  set (theta := phase wl wl0 neff ng L).
  destruct (Req_dec_T (denom t a theta) 0) as [ | Hd]; [discriminate | ].
  intros [= <-].
  pose proof (denom_nonneg t a theta) as Hd0.
  pose proof (numer_nonneg t a theta) as Hn0.
  assert (Hdpos : 0 < denom t a theta) by lra.
  assert (Ht : 0 <= t <= 1) by (apply sqrt_transmission_bounds; lra).
  assert (Ha0 : 0 < a) by apply amplitude_pos.
  assert (Ha1 : a <= 1) by (apply amplitude_le_1; nra).
  assert (Hle : numer t a theta <= denom t a theta).
  { assert (Hdiff : denom t a theta - numer t a theta
                    = (1 - t * t) * (1 - a * a)) by (unfold denom, numer; ring).
    assert (0 <= (1 - t * t) * (1 - a * a)) by (apply Rmult_le_pos; nra).
    lra. }
  split.
  - apply Rmult_le_pos; [exact Hn0 | left; apply Rinv_0_lt_compat, Hdpos].
  - apply (Rmult_le_reg_r (denom t a theta)); [exact Hdpos | ].
    unfold Rdiv. rewrite Rmult_assoc, Rinv_l by lra. lra.
Qed.

Lemma ring_passive_witness :
  ring 1 1 2 4 1 (1 / 2) 0 = Some 1 /\ 0 <= 1 <= 1.
Proof.
  assert (H : ring 1 1 2 4 1 (1 / 2) 0 = Some 1)
    by (apply ring_lossless_all_pass_aux; lra).
  split; [exact H | ].
  apply (ring_passive 1 1 2 4 1 (1 / 2) 0 1); try lra. exact H.
Defined.

(** With coupling = 1 nothing of the input passes by the ring: the
    transmission is the round-trip power loss 10^(-loss ring_length / 10),
    at every wavelength. *)
Theorem ring_full_coupling wl wl0 neff ng L loss :
  wl <> 0 -> wl0 <> 0 ->
  ring wl wl0 neff ng L 1 loss = Some (Rpower 10 (- loss * L / 10)).
Proof.
  intros Hwl Hwl0. rewrite ring_steps.
  destruct (Req_dec_T wl0 0); [contradiction | ].
  destruct (Rlt_dec (1 - 1) 0); [lra | ].
  destruct (Req_dec_T wl 0); [contradiction | ]. cbv zeta.
  replace (1 - 1) with 0 by ring. rewrite sqrt_0.
  unfold denom, numer.
  destruct (Req_dec_T _ 0) as [Hd | Hd]; [lra | ].
  f_equal. rewrite <- amplitude_sqr. field.
Qed.

Lemma ring_full_coupling_witness :
  ring 1 1 2 4 1 1 1 = Some (Rpower 10 (- 1 * 1 / 10)).
Proof. apply ring_full_coupling; lra. Defined.

(** Critical coupling: when sqrt(1 - coupling) equals the round-trip
    amplitude (coupling > 0) and the ring is on resonance, the transmission
    is exactly 0. *)
Theorem ring_critical_coupling wl wl0 neff ng L k loss :
  wl <> 0 -> wl0 <> 0 -> 0 < k <= 1 ->
  sqrt (1 - k) = amplitude loss L ->
  cos (phase wl wl0 neff ng L) = 1 ->
  ring wl wl0 neff ng L k loss = Some 0.
Proof.
  intros Hwl Hwl0 [Hk0 Hk1] Hta Hres. rewrite ring_steps.
  destruct (Req_dec_T wl0 0); [contradiction | ].
  destruct (Rlt_dec (1 - k) 0); [lra | ].
  destruct (Req_dec_T wl 0); [contradiction | ]. cbv zeta.
  rewrite <- Hta.
  assert (Hsq : sqrt (1 - k) * sqrt (1 - k) = 1 - k) by (apply sqrt_sqrt; lra).
  set (t := sqrt (1 - k)) in *.
  assert (Hn : numer t t (phase wl wl0 neff ng L) = 0)
    by (unfold numer; rewrite Hres; ring).
  assert (Hd : denom t t (phase wl wl0 neff ng L) = k * k).
  { unfold denom. rewrite Hres.
    replace (2 * t * t * 1) with (2 * (t * t)) by ring.
    rewrite Hsq. ring. }
  rewrite Hn, Hd.
  destruct (Req_dec_T (k * k) 0) as [Hz | Hz]; [nra | ].
  f_equal. field. lra.
Qed.

Lemma ring_critical_coupling_witness :
  ring 1 1 1 1 1 (1 - amplitude 1 1 * amplitude 1 1) 1 = Some 0.
Proof.
  pose proof (amplitude_pos 1 1) as Ha0.
  assert (Ha1 : amplitude 1 1 < 1) by (apply amplitude_lt_1; lra).
  apply ring_critical_coupling; try lra.
  - split; nra.
  - replace (1 - (1 - amplitude 1 1 * amplitude 1 1))
      with (amplitude 1 1 * amplitude 1 1) by ring.
    apply sqrt_square. lra.
  - rewrite phase_at_centre.
    replace (2 * PI * 1 * 1 / 1) with (2 * PI) by field. apply cos_2PI.
Defined.

(** At the centre wavelength wl = wl0 the group index plays no part. *)
Theorem ring_centre_ignores_ng wl0 neff ng ng' L k loss :
  ring wl0 wl0 neff ng L k loss = ring wl0 wl0 neff ng' L k loss.
Proof. rewrite !ring_steps, !phase_at_centre. reflexivity. Qed.

End Ring.

(** ** The generic layer map (03_layer_stack.ipynb, [GenericLayerMap]) *)

Module GenericTech.
Local Open Scope string_scope.
Local Open Scope Z_scope.

(** [Layer = Tuple[int, int]]: (GDSlayer, GDSpurpose). *)
Definition Layer : Type := Z * Z.

(** The fields of the class [GenericLayerMap] with their defaults, in the
    order of the class body. *)
Definition GenericLayerMap : list (string * Layer) :=
  [ ("WAFER", (99999, 0));
    ("WG", (1, 0));
    ("WGCLAD", (111, 0));
    ("SLAB150", (2, 0));
    ("SLAB90", (3, 0));
    ("DEEPTRENCH", (4, 0));
    ("GE", (5, 0));
    ("UNDERCUT", (6, 0));
    ("WGN", (34, 0));
    ("WGN_CLAD", (36, 0));
    ("N", (20, 0));
    ("NP", (22, 0));
    ("NPP", (24, 0));
    ("P", (21, 0));
    ("PP", (23, 0));
    ("PPP", (25, 0));
    ("GEN", (26, 0));
    ("GEP", (27, 0));
    ("HEATER", (47, 0));
    ("M1", (41, 0));
    ("M2", (45, 0));
    ("M3", (49, 0));
    ("VIAC", (40, 0));
    ("VIA1", (44, 0));
    ("VIA2", (43, 0));
    ("PADOPEN", (46, 0));
    ("DICING", (100, 0));
    ("NO_TILE_SI", (71, 0));
    ("PADDING", (67, 0));
    ("DEVREC", (68, 0));
    ("FLOORPLAN", (64, 0));
    ("TEXT", (66, 0));
    ("PORT", (1, 10));
    ("PORTE", (1, 11));
    ("PORTH", (70, 0));
    ("SHOW_PORTS", (1, 12));
    ("LABEL", (201, 0));
    ("LABEL_SETTINGS", (202, 0));
    ("TE", (203, 0));
    ("TM", (204, 0));
    ("DRC_MARKER", (205, 0));
    ("LABEL_INSTANCE", (206, 0));
    ("ERROR_MARKER", (207, 0));
    ("ERROR_PATH", (208, 0));
    ("SOURCE", (110, 0));
    ("MONITOR", (101, 0)) ].

(** Attribute access on [LAYER = GenericLayerMap()]: the model is frozen and
    forbids extra fields, so a name outside the class has no value. *)
Fixpoint getattr (fields : list (string * Layer)) (name : string) : option Layer :=
  match fields with
  | [] => None
  | (n, l) :: rest => if String.eqb n name then Some l else getattr rest name
  end.

Definition LAYER (name : string) : option Layer := getattr GenericLayerMap name.

(** The table of the notebook's LayerMap section, row by row:
    GDS (layer, purpose) against layer_name. *)
Definition documented_table : list (string * Layer) :=
  [ ("WG", (1, 0));
    ("SLAB150", (2, 0));
    ("SLAB90", (3, 0));
    ("DEEPTRENCH", (4, 0));
    ("MH", (47, 0));
    ("M1", (41, 0));
    ("M2", (45, 0));
    ("VIAC", (40, 0));
    ("VIA1", (44, 0));
    ("PADOPEN", (46, 0));
    ("UNDERCUT", (51, 0));
    ("TEXT", (66, 0));
    ("FLOORPLAN", (64, 0)) ].

Definition Layer_eqb (a b : Layer) : bool :=
  (fst a =? fst b) && (snd a =? snd b).

(** A documented row agrees with the code when the class has that field
    with that value. *)
Definition row_agrees (row : string * Layer) : bool :=
  match LAYER (fst row) with
  | Some l => Layer_eqb l (snd row)
  | None => false
  end.

(** C5: the code's layer map at the thirteen documented names. Eleven rows
    of the documented table are the values of the class; the class has no
    field MH (layer (47, 0) is named HEATER) and its UNDERCUT is (6, 0), not
    the documented (51, 0). *)
Theorem layer_map_against_documented_table :
  List.filter (fun row => negb (row_agrees row)) documented_table
    = [("MH", (47, 0)); ("UNDERCUT", (51, 0))]
  /\ LAYER "MH" = None
  /\ LAYER "HEATER" = Some (47, 0)
  /\ LAYER "UNDERCUT" = Some (6, 0)
  /\ LAYER "WG" = Some (1, 0) /\ LAYER "SLAB150" = Some (2, 0)
  /\ LAYER "SLAB90" = Some (3, 0) /\ LAYER "DEEPTRENCH" = Some (4, 0)
  /\ LAYER "M1" = Some (41, 0) /\ LAYER "M2" = Some (45, 0)
  /\ LAYER "VIAC" = Some (40, 0) /\ LAYER "VIA1" = Some (44, 0)
  /\ LAYER "PADOPEN" = Some (46, 0) /\ LAYER "TEXT" = Some (66, 0)
  /\ LAYER "FLOORPLAN" = Some (64, 0).
Proof. repeat split; vm_compute; reflexivity. Qed.

(** *** Names and layers correspond one to one *)

Lemma getattr_In fields n l : getattr fields n = Some l -> In (n, l) fields.
Proof.
  induction fields as [ | [n' l'] rest IH]; cbn; [discriminate | ].
  destruct (String.eqb n' n) eqn:E.
  - intros [= <-]. apply String.eqb_eq in E. subst. left. reflexivity.
  - intros H. right. apply IH, H.
Qed.

Lemma distinct_values_one_key (fields : list (string * Layer)) n1 n2 l :
  List.NoDup (map snd fields) -> In (n1, l) fields -> In (n2, l) fields ->
  n1 = n2.
Proof.
  induction fields as [ | [n' l'] rest IH]; cbn; [intros _ [] | ].
  intros Hnd H1 H2. apply List.NoDup_cons_iff in Hnd as [Hnot Hnd].
  destruct H1 as [H1 | H1]; destruct H2 as [H2 | H2].
  - congruence.
  - exfalso. apply Hnot. apply (in_map snd) in H2.
    replace l' with l by congruence. exact H2.
  - exfalso. apply Hnot. apply (in_map snd) in H1.
    replace l' with l by congruence. exact H1.
  - apply IH; assumption.
Qed.

Lemma layers_distinct : List.NoDup (map snd GenericLayerMap).
Proof.
  apply NoDup_ListNoDup, (bool_decide_unpack _). vm_compute. reflexivity.
Qed.

(** No two names of the layer map stand for the same (GDSlayer, GDSpurpose)
    pair: a layer found in a GDS file has one name at most. *)
Theorem layer_names_injective n1 n2 l :
  LAYER n1 = Some l -> LAYER n2 = Some l -> n1 = n2.
Proof.
  intros H1 H2. apply getattr_In in H1, H2.
  exact (distinct_values_one_key _ _ _ _ layers_distinct H1 H2).
Qed.

Lemma layer_names_injective_witness :
  LAYER "PORT" = Some (1, 10) /\ "PORT" = "PORT".
Proof.
  split; [reflexivity | ].
  apply (layer_names_injective "PORT" "PORT" (1, 10)); reflexivity.
Defined.

End GenericTech.

(** ** The generic layer stack (03_layer_stack.ipynb, [get_layer_stack]) *)

Module GenericLayerStack.
Import GenericTech.
Local Open Scope string_scope.
Local Open Scope float_scope.
#[local] Set Warnings "-inexact-float".

(** Python floats are binary64, as the floats here: a decimal literal is
    the nearest binary64 value and every operation rounds as in Python. *)
Definition nm : float := 1e-3.

(** The keyword arguments the notebook passes to [LayerLevel]; an argument
    that is not passed is [None]. [mesh_order] is the entry of [info]. *)
Record LayerLevel := {
  layer : Layer;
  thickness : float;
  zmin : float;
  material : string;
  mesh_order : Z;
  sidewall_angle : option float;
  width_to_z : option float;
  z_to_bias : option (list float * list float) }.

(** The parameters of [get_layer_stack]. *)
Record Params := {
  thickness_wg : float;
  thickness_slab_deep_etch : float;
  thickness_clad : float;
  thickness_nitride : float;
  thickness_ge : float;
  gap_silicon_to_nitride : float;
  zmin_heater : float;
  zmin_metal1 : float;
  thickness_metal1 : float;
  zmin_metal2 : float;
  thickness_metal2 : float;
  zmin_metal3 : float;
  thickness_metal3 : float;
  substrate_thickness : float;
  box_thickness : float;
  undercut_thickness : float }.

(** The defaults of the signature. *)
Definition defaults : Params :=
  {| thickness_wg := 220 * nm;
     thickness_slab_deep_etch := 90 * nm;
     thickness_clad := 3.0;
     thickness_nitride := 350 * nm;
     thickness_ge := 500 * nm;
     gap_silicon_to_nitride := 100 * nm;
     zmin_heater := 1.1;
     zmin_metal1 := 1.1;
     thickness_metal1 := 700 * nm;
     zmin_metal2 := 2.3;
     thickness_metal2 := 700 * nm;
     zmin_metal3 := 3.2;
     thickness_metal3 := 2000 * nm;
     substrate_thickness := 10.0;
     box_thickness := 3.0;
     undercut_thickness := 5.0 |}.

(** [LAYER.NAME] for a field of the layer map. *)
Definition attr (name : string) : Layer :=
  match LAYER name with
  | Some l => l
  | None => (0%Z, 0%Z)
  end.

Definition level (l : Layer) (t z : float) (m : string) (order : Z)
  : LayerLevel :=
  {| layer := l; thickness := t; zmin := z; material := m; mesh_order := order;
     sidewall_angle := None; width_to_z := None; z_to_bias := None |}.

(** The class [GenericLayerStack] that [get_layer_stack] returns: its
    levels in the order of the class body. The integer literals of the
    source ([zmin=0], [sidewall_angle=10], the [-0] of [z_to_bias]) are the
    floats of the same value. *)
Definition get_layer_stack (p : Params) : list (string * LayerLevel) :=
  [ ("substrate",
      level (attr "WAFER") (substrate_thickness p)
            (- substrate_thickness p - box_thickness p) "si" 99);
    ("box",
      level (attr "WAFER") (box_thickness p) (- box_thickness p) "sio2" 99);
    ("core",
      {| layer := attr "WG"; thickness := thickness_wg p; zmin := 0.0;
         material := "si"; mesh_order := 1;
         sidewall_angle := Some 10; width_to_z := Some 0.5;
         z_to_bias := None |});
    ("clad",
      level (attr "WAFER") (thickness_clad p) 0.0 "sio2" 10);
    ("slab150",
      level (attr "SLAB150") 150e-3 0 "si" 3);
    ("slab90",
      level (attr "SLAB90") (thickness_slab_deep_etch p) 0.0 "si" 2);
    ("nitride",
      level (attr "WGN") (thickness_nitride p)
            (thickness_wg p + gap_silicon_to_nitride p) "sin" 2);
    ("ge",
      level (attr "GE") (thickness_ge p) (thickness_wg p) "ge" 1);
    ("undercut",
      {| layer := attr "UNDERCUT"; thickness := - undercut_thickness p;
         zmin := - box_thickness p; material := "air"; mesh_order := 1;
         sidewall_angle := None; width_to_z := None;
         z_to_bias :=
           Some ([0; 0.3; 0.6; 0.8; 0.9; 1],
                 [0; -0.5; -1; -1.5; -2; -2.5]) |});
    ("via_contact",
      {| layer := attr "VIAC";
         thickness := zmin_metal1 p - thickness_slab_deep_etch p;
         zmin := thickness_slab_deep_etch p; material := "Aluminum";
         mesh_order := 1;
         sidewall_angle := Some (-10); width_to_z := Some 0;
         z_to_bias := None |});
    ("metal1",
      level (attr "M1") (thickness_metal1 p) (zmin_metal1 p) "Aluminum" 2);
    ("heater",
      level (attr "HEATER") 750e-3 (zmin_heater p) "TiN" 1);
    ("via1",
      level (attr "VIA1")
            (zmin_metal2 p - (zmin_metal1 p + thickness_metal1 p))
            (zmin_metal1 p + thickness_metal1 p) "Aluminum" 2);
    ("metal2",
      level (attr "M2") (thickness_metal2 p) (zmin_metal2 p) "Aluminum" 2);
    ("via2",
      level (attr "VIA2")
            (zmin_metal3 p - (zmin_metal2 p + thickness_metal2 p))
            (zmin_metal2 p + thickness_metal2 p) "Aluminum" 1);
    ("metal3",
      level (attr "M3") (thickness_metal3 p) (zmin_metal3 p) "Aluminum" 2) ].

(** [layer_stack.layers[key]]. *)
Fixpoint layers_get (stack : list (string * LayerLevel)) (key : string)
  : option LayerLevel :=
  match stack with
  | [] => None
  | (k, l) :: rest => if String.eqb k key then Some l else layers_get rest key
  end.

(** [get_layer_stack(thickness_wg=t)] with the other arguments of [p]. *)
Definition with_thickness_wg (p : Params) (t : float) : Params :=
  {| thickness_wg := t;
     thickness_slab_deep_etch := thickness_slab_deep_etch p;
     thickness_clad := thickness_clad p;
     thickness_nitride := thickness_nitride p;
     thickness_ge := thickness_ge p;
     gap_silicon_to_nitride := gap_silicon_to_nitride p;
     zmin_heater := zmin_heater p;
     zmin_metal1 := zmin_metal1 p;
     thickness_metal1 := thickness_metal1 p;
     zmin_metal2 := zmin_metal2 p;
     thickness_metal2 := thickness_metal2 p;
     zmin_metal3 := zmin_metal3 p;
     thickness_metal3 := thickness_metal3 p;
     substrate_thickness := substrate_thickness p;
     box_thickness := box_thickness p;
     undercut_thickness := undercut_thickness p |}.

(** Changing thickness_wg alone (the notebook builds the stack for 0.220
    and for 0.9) changes the levels core, nitride and ge and no other. *)
Theorem thickness_wg_changes_three_levels p t key :
  key <> "core" -> key <> "nitride" -> key <> "ge" ->
  layers_get (get_layer_stack (with_thickness_wg p t)) key
  = layers_get (get_layer_stack p) key.
Proof.
  intros Hc Hn Hg.
  apply String.eqb_neq in Hc, Hn, Hg.
  rewrite String.eqb_sym in Hc, Hn, Hg.
  unfold get_layer_stack. cbn [layers_get].
  rewrite Hc, Hn, Hg.
  repeat (destruct (String.eqb _ key); [reflexivity | ]).
  reflexivity.
Qed.

Lemma thickness_wg_changes_three_levels_witness :
  layers_get (get_layer_stack (with_thickness_wg defaults 0.9)) "via_contact"
  = layers_get (get_layer_stack defaults) "via_contact".
Proof.
  apply thickness_wg_changes_three_levels; discriminate.
Defined.

(** *** Filtering a stack (the meshing notebooks, [filtered_layerstack]) *)

(** [{k: layers[k] for k in keys}]: the levels of the named keys, in the
    order of [keys]; the first key that the stack does not have raises
    KeyError, given here as [inl] of that key. *)
Fixpoint filtered_layers (keys : list string)
    (stack : list (string * LayerLevel)) : string + list (string * LayerLevel) :=
  match keys with
  | [] => inr []
  | k :: ks =>
      match layers_get stack k with
      | None => inl k
      | Some l =>
          match filtered_layers ks stack with
          | inl missing => inl missing
          | inr rest => inr ((k, l) :: rest)
          end
      end
  end.

Definition mesh_keys : list string := ["slab90"; "core"; "via_contact"].

Definition in_keys (key : string) (keys : list string) : bool :=
  existsb (String.eqb key) keys.

(** A filtered stack has the levels of the chosen keys, unchanged, and no
    level under any other key. *)
Theorem filtered_layers_get keys stack filtered key :
  filtered_layers keys stack = inr filtered ->
  layers_get filtered key
  = if in_keys key keys then layers_get stack key else None.
Proof.
  revert filtered. induction keys as [ | k ks IH]; cbn; intros filtered H.
  - injection H as <-. reflexivity.
  - destruct (layers_get stack k) as [l | ] eqn:Hk; [ | discriminate].
    destruct (filtered_layers ks stack) as [ | rest]; [discriminate | ].
    injection H as <-. cbn [layers_get].
    rewrite (String.eqb_sym key k).
    destruct (String.eqb k key) eqn:E.
    + apply String.eqb_eq in E. subst key. cbn. symmetry. exact Hk.
    + cbn. apply IH. reflexivity.
Qed.

(** The notebooks' filter of the default stack, read at "core". *)
Lemma filtered_layers_get_witness :
  match filtered_layers mesh_keys (get_layer_stack defaults) with
  | inr filtered =>
      layers_get filtered "core" = layers_get (get_layer_stack defaults) "core"
  | inl _ => False
  end.
Proof.
  exact (filtered_layers_get mesh_keys (get_layer_stack defaults) _ "core"
           eq_refl).
Defined.

(** Filtering raises KeyError exactly at the first key, in the order given,
    that the stack does not have; the keys before it are present. *)
Theorem filtered_layers_key_error keys stack missing :
  filtered_layers keys stack = inl missing <->
  exists before after,
    keys = (before ++ missing :: after)%list
    /\ layers_get stack missing = None
    /\ forallb (fun k => match layers_get stack k with
                         | Some _ => true
                         | None => false
                         end) before = true.
Proof.
  induction keys as [ | k ks IH]; cbn.
  - split; [discriminate | ].
    intros (before & after & H & _). destruct before; discriminate.
  - destruct (layers_get stack k) as [l | ] eqn:Hk.
    + destruct (filtered_layers ks stack) as [m | rest] eqn:Hf.
      * split.
        -- intros [= ->]. destruct IH as [IH _].
           destruct (IH eq_refl) as (before & after & -> & Hm & Hb).
           exists (k :: before), after. cbn. rewrite Hk, Hb. auto.
        -- intros (before & after & Heq & Hm & Hb).
           destruct before as [ | b before]; cbn in Heq; injection Heq as -> ->.
           ++ congruence.
           ++ cbn in Hb. rewrite Hk in Hb. f_equal. destruct IH as [_ IH].
              assert (Hin : inl m = @inl string (list (string * LayerLevel)) missing).
              { apply IH. exists before, after. auto. }
              congruence.
      * split; [discriminate | ].
        intros (before & after & Heq & Hm & Hb).
        destruct before as [ | b before]; cbn in Heq; injection Heq as -> ->.
        -- congruence.
        -- cbn in Hb. rewrite Hk in Hb. destruct IH as [_ IH].
           assert (Hin : inr rest = @inl string (list (string * LayerLevel)) missing).
           { apply IH. exists before, after. auto. }
           discriminate.
    + split.
      * intros [= ->]. exists [], ks. auto.
      * intros (before & after & Heq & Hm & Hb).
        destruct before as [ | b before]; cbn in Heq; injection Heq as -> ->.
        -- reflexivity.
        -- cbn in Hb. rewrite Hk in Hb. discriminate.
Qed.

(** The three keys of the meshing notebooks are levels of the generic
    stack for every choice of arguments: the filter does not raise and
    gives the three levels in the order asked. *)
Lemma mesh_keys_filter_succeeds p :
  exists filtered,
    filtered_layers mesh_keys (get_layer_stack p) = inr filtered
    /\ map fst filtered = mesh_keys.
Proof. eexists. split; reflexivity. Qed.

End GenericLayerStack.

(** ** Components, the cell decorator and its cache
    (03_cells_autoname_and_cache.ipynb and the common-mistakes notebook) *)

Module Cells.
Local Open Scope string_scope.

(** Modelled from the spec: [uuid.uuid4], which gives each new component
    its identifier. A run of the program draws identifiers one after the
    other; nothing is assumed about the draws. Two runs have two sources. *)
Record UuidSource := { uuid4 : nat -> string }.

(** A keyword argument value of a cell function. *)
Inductive Value :=
  | VInt (z : Z)
  | VFloat (q : Q)
  | VStr (s : string)
  | VLayer (gds_layer gds_purpose : Z).

(** The parameters passed to a cell function, by keyword. *)
Definition Settings : Type := list (string * Value).

Record Polygon := { points : list (Q * Q); layer : Z * Z }.

(** A reference points to a component: it records which object it points to
    (the uid) and the cell name that object carries. *)
Record ComponentReference := {
  ref_name : string;
  ref_uid : string;
  origin : Q * Q }.

Record Port := {
  port_name : string;
  center : Q * Q;
  width : Q;
  orientation : Q;
  port_layer : Z * Z }.

(** Modelled from the spec: the class [gf.Component] (gdsfactory/component.py
    is not part of the notebooks). A component has a name, the unique
    identifier drawn when it was created, polygons, ports and references. *)
Record Component := {
  name : string;
  uid : string;
  polygons : list Polygon;
  ports : list Port;
  references : list ComponentReference }.

(** A function that [gf.cell] decorates: its [__name__] and its body, which
    fills the new component [c = gf.Component()] from the parameters and
    returns it. *)
Record CellFunction := {
  fn_name : string;
  fn_body : Settings -> Component -> Component }.

(** The state of a run: the decorator's cache (keyed by cell name), how many
    identifiers were drawn, and the log of the function bodies that ran
    (the notebook's BUILDING prints), oldest first. *)
Record State := {
  CACHE : gmap string Component;
  drawn : nat;
  builds : list (string * Settings) }.

Definition init : State := {| CACHE := ∅; drawn := 0; builds := [] |}.

(** Modelled from the spec: the constructor [gf.Component(name)]. Without a
    name the component is called Unnamed followed by its identifier. *)
Definition new_Component (u : UuidSource) (explicit : option string) (st : State)
  : Component * State :=
  let id := uuid4 u (drawn st) in
  ({| name := match explicit with
              | Some n => n
              | None => "Unnamed_" ++ id
              end;
      uid := id; polygons := []; ports := []; references := [] |},
   {| CACHE := CACHE st; drawn := S (drawn st); builds := builds st |}).

Definition add_polygon (c : Component) (pts : list (Q * Q)) (l : Z * Z)
  : Component :=
  {| name := name c; uid := uid c;
     polygons := polygons c ++ [{| points := pts; layer := l |}];
     ports := ports c; references := references c |}.

Definition add_port (c : Component) (pt : Port) : Component :=
  {| name := name c; uid := uid c; polygons := polygons c;
     ports := ports c ++ [pt]; references := references c |}.

(** The decorator's renaming of the component a body returned. *)
Definition rename (c : Component) (n : string) : Component :=
  {| name := n; uid := uid c; polygons := polygons c; ports := ports c;
     references := references c |}.

Section Decorator.

(** The hashing of the call parameters, and the way the decorator puts the
    function's name and the digest together; neither is shown in the
    notebooks, and nothing below depends on which they are. *)
Variable hash : Settings -> string.
Variable name_of : string -> string -> string.

Definition get_name (fname : string) (p : Settings) : string :=
  name_of fname (hash p).

(** Modelled from the spec: the decorator [gf.cell] (gdsfactory/cell.py is
    not part of the notebooks). The name comes from the function's name and
    the parameters. With [cache] on (the default) a name found in the cache
    gives the cached component and the body does not run. Otherwise the
    body runs on a new component, which takes the name and is stored in the
    cache under it. [cache=False] ignores what the cache holds. *)
Definition cell (u : UuidSource) (f : CellFunction) (p : Settings) (cache : bool)
    (st : State) : Component * State :=
  let n := get_name (fn_name f) p in
  match (if cache then CACHE st !! n else None) with
  | Some c => (c, st)
  | None =>
      let c0 := fst (new_Component u None st) in
      let st1 := snd (new_Component u None st) in
      let c := rename (fn_body f p c0) n in
      (c, {| CACHE := <[n := c]> (CACHE st1); drawn := drawn st1;
             builds := builds st1 ++ [(fn_name f, p)] |})
  end.

(** Modelled from the spec: [gf.clear_cache()]. *)
Definition clear_cache (st : State) : State :=
  {| CACHE := ∅; drawn := drawn st; builds := builds st |}.





(** *** The cache *)

(** After a call the cache holds the returned component under its name. *)
Lemma cell_stores u f p b st :
  CACHE (snd (cell u f p b st)) !! get_name (fn_name f) p
  = Some (fst (cell u f p b st)).
Proof.
  unfold cell.
  destruct (if b then CACHE st !! get_name (fn_name f) p else None) eqn:E; cbn.
  - destruct b; [exact E | discriminate].
  - apply lookup_insert_eq.
Qed.

(** A call with the cache on whose name is cached returns the cached
    component and changes nothing. *)
Lemma cell_hit u f p st c :
  CACHE st !! get_name (fn_name f) p = Some c -> cell u f p true st = (c, st).
Proof. intros H. unfold cell. rewrite H. reflexivity. Qed.





(** *** The decorator's cache *)


End Decorator.

(** *** The notebook's cells, run on the model *)

(** An identifier source for running the model: the draws counted in
    hexadecimal. *)
Definition hex (n : nat) : string :=
  HexadecimalString.NilEmpty.string_of_uint (Nat.to_hex_uint n).

Definition counting_uuid : UuidSource := {| uuid4 := hex |}.

Definition show_Z (z : Z) : string :=
  (if (z <? 0)%Z then "m" else "")
  ++ HexadecimalString.NilEmpty.string_of_uint (N.to_hex_uint (Z.abs_N z)).

Definition show_value (v : Value) : string :=
  match v with
  | VInt z => show_Z z
  | VFloat q => show_Z (Qnum q) ++ "d" ++ show_Z (Zpos (Qden q))
  | VStr s => s
  | VLayer a b => show_Z a ++ "_" ++ show_Z b
  end.

(** A stand-in for the digest of the parameters, to run the model on the
    notebook's calls: the passed keywords, each with its value. *)
Definition sample_hash (p : Settings) : string :=
  String.concat "_" (map (fun kv => fst kv ++ show_value (snd kv)) p).

Definition sample_name_of (fname digest : string) : string :=
  if String.eqb digest "" then fname else fname ++ "_" ++ digest.

Fixpoint kwarg (p : Settings) (key : string) (default : Value) : Value :=
  match p with
  | [] => default
  | (k, v) :: rest => if String.eqb k key then v else kwarg rest key default
  end.

Definition as_Q (v : Value) : Q :=
  match v with
  | VInt z => inject_Z z
  | VFloat q => q
  | _ => inject_Z 0
  end.

Definition as_layer (v : Value) : Z * Z :=
  match v with
  | VLayer a b => (a, b)
  | _ => (0%Z, 0%Z)
  end.

Definition rectangle (length w : Q) : list (Q * Q) :=
  [(inject_Z 0, inject_Z 0); (length, inject_Z 0); (length, w); (inject_Z 0, w)].

(** [def wg(length=10, width=1, layer=(1, 0))] of the notebook: a rectangle
    and the ports o1 and o2. *)
Definition wg : CellFunction :=
  {| fn_name := "wg";
     fn_body := fun p c =>
       let length := as_Q (kwarg p "length" (VInt 10)) in
       let w := as_Q (kwarg p "width" (VInt 1)) in
       let l := as_layer (kwarg p "layer" (VLayer 1 0)) in
       let c := add_polygon c (rectangle length w) l in
       let c := add_port c
         {| port_name := "o1"; center := (inject_Z 0, Qdiv w (inject_Z 2));
            width := w; orientation := inject_Z 180; port_layer := l |} in
       add_port c
         {| port_name := "o2"; center := (length, Qdiv w (inject_Z 2));
            width := w; orientation := inject_Z 0; port_layer := l |} |}.

(** [def wg(length=10, width=1)] of the notebook's Cache section, which
    carries the same name: the rectangle on layer (1, 0) and no ports. *)
Definition wg_no_ports : CellFunction :=
  {| fn_name := "wg";
     fn_body := fun p c =>
       let length := as_Q (kwarg p "length" (VInt 10)) in
       let w := as_Q (kwarg p "width" (VInt 1)) in
       add_polygon c (rectangle length w) (1%Z, 0%Z) |}.



(** [wg()] with the first definition, [gf.clear_cache()], and [wg()] with
    the second definition, as in the notebook: the two decorated functions
    give two different components with the same name. *)
Lemma same_name_distinct_cells :
  let r1 := cell sample_hash sample_name_of counting_uuid wg [] true init in
  let r2 := cell sample_hash sample_name_of counting_uuid wg_no_ports [] true
              (clear_cache (snd r1)) in
  fst r1 <> fst r2 /\ name (fst r1) = name (fst r2)
  /\ ports (fst r1) <> ports (fst r2).
Proof.
  cbv zeta. split; [ | split; [reflexivity | ]].
  - intros H. apply (f_equal uid) in H. vm_compute in H. discriminate.
  - vm_compute. discriminate.
Qed.


(** *** A comprehension over a decorated cell (workflow/2_ring.ipynb) *)

Section Comprehension.

Variable hash : Settings -> string.
Variable name_of : string -> string -> string.

(** A list comprehension that calls [f] with the parameters [p] for each
    element and does not pass the loop variable on, as the notebook's
    rings_heater, which calls ring_single_heater(gap=0.2, radius=10,
    length_x=4) for gap in gaps. *)
Fixpoint call_each {A : Type} (u : UuidSource) (f : CellFunction) (p : Settings)
    (xs : list A) (st : State) : list Component * State :=
  match xs with
  | [] => ([], st)
  | _ :: rest =>
      let r := cell hash name_of u f p true st in
      let rs := call_each u f p rest (snd r) in
      (fst r :: fst rs, snd rs)
  end.

Lemma call_each_cached {A : Type} u f p (xs : list A) st c :
  CACHE st !! get_name hash name_of (fn_name f) p = Some c ->
  call_each u f p xs st = (repeat c (length xs), st).
Proof.
  intros Hc. induction xs as [ | x xs IH]; cbn; [reflexivity | ].
  rewrite (cell_hit hash name_of u f p st c Hc). cbn. rewrite IH. reflexivity.
Qed.

(** Such a comprehension gives the same component for every element, the
    one its first call returns, and the run is left as that first call left
    it: the body runs once at most, however long the list. *)
Theorem comprehension_repeats_one_cell {A : Type} u f p (x : A) xs st :
  call_each u f p (x :: xs) st
  = (repeat (fst (cell hash name_of u f p true st)) (S (length xs)),
     snd (cell hash name_of u f p true st)).
Proof.
  cbn [call_each]. cbv zeta.
  rewrite (call_each_cached u f p xs _ _ (cell_stores hash name_of u f p true st)).
  reflexivity.
Qed.

End Comprehension.

End Cells.

(** ** The database models (the Database notebook, [gdsfactory.database]) *)

Module Database.
Local Open Scope string_scope.

Inductive Model :=
  | Wafer | Reticle | Die | Component | Port | ComponentInfo | SParameterResults.

Definition Model_eqb (a b : Model) : bool :=
  match a, b with
  | Wafer, Wafer | Reticle, Reticle | Die, Die | Component, Component
  | Port, Port | ComponentInfo, ComponentInfo
  | SParameterResults, SParameterResults => true
  | _, _ => false
  end.

Definition all_models : list Model :=
  [Wafer; Reticle; Die; Component; Port; ComponentInfo; SParameterResults].

(** What a model declares: a plain column, a foreign-key id column, or a
    relationship attribute that holds the related row. *)
Inductive Attribute :=
  | Column (attr : string)
  | ForeignKeyId (attr : string) (target : Model)
  | RelationshipTo (attr : string) (target : Model).

Definition attr_name (a : Attribute) : string :=
  match a with
  | Column n | ForeignKeyId n _ | RelationshipTo n _ => n
  end.

(** Modelled from the spec: the SQLAlchemy models of gdsfactory/database,
    which are not part of the notebooks. The attributes are the keywords the
    notebook passes to each model's constructor, with the primary key; an
    attribute x_id next to an attribute x is the foreign-key id and the
    relationship to the parent row. *)
Definition attributes (m : Model) : list Attribute :=
  match m with
  | Wafer => [Column "id"; Column "name"; Column "serial_number"]
  | Reticle =>
      [Column "id"; Column "name";
       ForeignKeyId "wafer_id" Wafer; RelationshipTo "wafer" Wafer]
  | Die =>
      [Column "id"; Column "name";
       ForeignKeyId "reticle_id" Reticle; RelationshipTo "reticle" Reticle]
  | Component =>
      [Column "id"; Column "name";
       ForeignKeyId "die_id" Die; RelationshipTo "die" Die]
  | Port =>
      [Column "id"; Column "name"; Column "port_type"; Column "orientation";
       Column "position";
       ForeignKeyId "component_id" Component; RelationshipTo "component" Component]
  | ComponentInfo =>
      [Column "id"; Column "name"; Column "value";
       ForeignKeyId "component_id" Component; RelationshipTo "component" Component]
  | SParameterResults => [Column "id"; Column "array"; Column "n_ports"]
  end.

(** The constructor calls of the notebook's session block, by keyword. *)
Definition notebook_calls : list (Model * list string) :=
  [ (Wafer, ["name"; "serial_number"]);
    (Reticle, ["name"; "wafer_id"; "wafer"]);
    (Die, ["name"; "reticle_id"; "reticle"]);
    (Component, ["name"; "die_id"; "die"]);
    (ComponentInfo, ["component"; "component_id"; "name"; "value"]);
    (Port, ["component"; "component_id"; "port_type"; "name"; "orientation";
            "position"]);
    (SParameterResults, ["array"; "n_ports"]) ].

Definition declares (m : Model) (kw : string) : bool :=
  existsb (fun a => String.eqb (attr_name a) kw) (attributes m).

(** The model a row's foreign-key id points to. *)
Definition parent (m : Model) : option Model :=
  match List.filter (fun a => match a with ForeignKeyId _ _ => true | _ => false end)
               (attributes m) with
  | ForeignKeyId _ t :: _ => Some t
  | _ => None
  end.

Definition has_foreign_key (m p : Model) : bool :=
  existsb (fun a => match a with
                    | ForeignKeyId _ t => Model_eqb t p
                    | _ => false
                    end) (attributes m).

Definition has_relationship (m p : Model) : bool :=
  existsb (fun a => match a with
                    | RelationshipTo _ t => Model_eqb t p
                    | _ => false
                    end) (attributes m).

(** The chain of parents above a model. *)
Fixpoint lineage (fuel : nat) (m : Model) : list Model :=
  match fuel with
  | O => []
  | S k => match parent m with
           | Some p => p :: lineage k p
           | None => []
           end
  end.

(** Every keyword of the notebook's constructor calls is a declared
    attribute of its model. *)
Lemma notebook_calls_declared :
  forallb (fun call => forallb (declares (fst call)) (snd call)) notebook_calls
  = true.
Proof. reflexivity. Qed.

(** C6. The seven models; Reticle points to a parent Wafer, Die to a
    Reticle, Component to a Die, Port and ComponentInfo to a Component, each
    with a foreign-key id and a relationship attribute; the chain above a
    Port or a ComponentInfo is Component, Die, Reticle, Wafer. *)
Theorem orm_hierarchy :
  map parent all_models
    = [None; Some Wafer; Some Reticle; Some Die; Some Component; Some Component;
       None]
  /\ forallb (fun m => match parent m with
                       | Some p => has_foreign_key m p && has_relationship m p
                       | None => true
                       end) all_models = true
  /\ lineage (length all_models) Port = [Component; Die; Reticle; Wafer]
  /\ lineage (length all_models) ComponentInfo = [Component; Die; Reticle; Wafer].
Proof. repeat split. Qed.

(** *** The number of ports stored with S-parameters *)

(** [int(math.sqrt(len(s_params) - 1))] of the notebook, on the length of
    [s_params]: math.sqrt raises ValueError below zero ([None]); for an
    argument below 2^52 the float square root cut to an integer is the
    integer square root. *)
Definition n_ports (len_s_params : Z) : option Z :=
  if (len_s_params - 1 <? 0)%Z then None
  else Some (Z.sqrt (len_s_params - 1)).

(** A dictionary with one entry besides the n * n S-parameters of an
    n-port gives back n; an empty dictionary raises. *)
Theorem n_ports_of_square n :
  (0 <= n < 2 ^ 26)%Z ->
  n_ports (n * n + 1) = Some n /\ n_ports 0 = None.
Proof.
  intros [Hn _]. split; [ | reflexivity]. unfold n_ports.
  replace (n * n + 1 - 1)%Z with (n * n)%Z by lia.
  destruct (Z.ltb_spec (n * n) 0) as [H | H]; [nia | ].
  f_equal. apply Z.sqrt_square, Hn.
Qed.

Lemma n_ports_of_square_witness :
  n_ports (3 * 3 + 1) = Some 3%Z /\ n_ports 0 = None.
Proof. apply n_ports_of_square. lia. Defined.

End Database.
